(* ===== verification/_CoqProject ===== *)
-Q . S2P
Prelude.v
Geometry.v
Data.v
Tracker.v
Smoother.v
EventLoop.v
