(* ===== verification/Prelude.v ===== *)
(** * A verification development of the spin-mouse component

    The program is one Vue component, [spin-tester], in
    [src/spin-tester.js]. It samples [mousemove] events (at most one per
    20 ms interval tick), classifies each sampled move into one of four
    sections by the signs of its displacement, counts the revolutions of
    a clockwise circular gesture, and smooths a speed value by damped
    linear interpolation driven by 5 ms timers, decaying it towards zero
    50 ms after an update has finished.

    ** Files, and which code they model

    - [Prelude.v] (this file): notation ([|>] for statement sequencing,
      [<q?] for comparisons of rationals), the hint databases [spin] and
      [spin_rw], the tactics [invc], [decide_all], [decide_by_eval], and
      generic lemmas ([sum_list] for [reduce], [rtc_preserved]).
    - [Geometry.v]: [getMousePosition], [determineSection],
      [getDirection], [calcDistance]. [Math.sqrt] is a library function
      the code only calls: it is the class [MathSqrt] with the laws the
      code relies on, instantiated for runs by [sqrt_milli] (a square root
      rounded up to 1/1000).
    - [Data.v]: the record of [data()], one setter per assigned field,
      [clearState] as the sequence of its assignments.
    - [Tracker.v]: [updateSection] on [arrSection] and [cumulate], and
      an abstract automaton of revolution attempts ([Attempt]: [Idle], a
      clockwise [Arc] of one to three quadrants, or a [Gap] of two
      opposite quadrants) with its step [astep] and the array [gamma p] it
      denotes.
    - [Smoother.v]: [lerp], one call of the [interpolate] closure, and the
      run of calls of [interpolateValues] as the list of values written to
      [this.speed] ([interpolation], with fuel).
    - [EventLoop.v]: the browser's event loop around the component. A
      [World] holds the clock, the data, whether the listener is
      registered, and the three timers (the interval, the pending 5 ms
      interpolation step, the decay [speedTimer]). [handleMouseMove],
      [updateSpeed], [interpolateValues], [trackingState] (as
      [fire_track]), the timer callbacks ([fire_interp], [fire_decay]),
      [created] and [beforeDestroy] are functions on worlds; each handler
      returns the microtasks it queued (the continuations after [await])
      and [drain] runs them before the next macrotask, as JavaScript does.
      [step] is the relation of all macrotask interleavings; [run] and
      [run_timers] are an executable scheduler firing timers by due time.

    ** What the theorems show

    - Tracker: [updateSection_refines] (C1) is a functional refinement:
      on the array of any attempt, [updateSection] computes the array of
      the automaton's next attempt and increments [cumulate] exactly when
      the automaton counts; [track_run_refines] lifts it to runs. On the
      automaton, a revolution is counted exactly when the last four
      distinct quadrants were entered clockwise (C2 soundness, C3
      completeness, repeats allowed). The code also accepts a skipped
      quadrant without reset (C15), aborts on a counter-clockwise step
      (C16), and its predecessor test never changes the outcome: on every
      well-formed array [updateSection] equals the reference
      [updateSection_succ_only] without it (C17).
    - Smoother: the interpolation terminates within [interp_bound]
      calls, [|start - end| / (damping * threshold) + 1], because every
      call that does not resolve brings the value at least
      [damping * threshold] closer (C4); it ends on the target exactly
      (C8), increases strictly towards a larger target (C9), and stays
      between start and target (C10).
    - Event loop: invariants of every reachable world, by induction on
      [step]: the lock is held exactly while an interpolation step is
      pending (C5), the speed is never negative (C7), the tracker array is
      one the automaton denotes (C11); [cumulate] never decreases (C12).
      The lock makes [interpolateValues] a no-op (C6) and loses a decay
      timer that fires during an interpolation (C20). The interval gate
      processes at most one sample per tick (C13), whatever mouse events
      and timers come in between (C21, over [step_no_tick]). A sample
      that completes a revolution zeroes the speed while the running
      interpolation continues (C19). The component keeps writing [speed]
      after [beforeDestroy] (C18).

    ** Modelling choices, bounds and fuel

    - Page coordinates are integers ([Z]); speeds and the damping are
      rationals ([Q]) computed exactly, not IEEE doubles. In the
      concrete runs used by witnesses no comparison is within rounding
      distance of its threshold.
    - JavaScript [null] is [None]; [arrSection] is a [list nat] read with
      stdpp's [!!] and written with [<[i:=v]>], whose indices stay in
      range because sections are 1..4 ([determineSection_Some_range]).
    - Time is an integer number of milliseconds. Timers due at the same
      time fire in the order interval, interpolation, decay, and before a
      mouse event at that time; the concrete sessions used by witnesses
      avoid such ties. The scheduler is given 1000 timer firings, far more
      than the at most one per millisecond a session of 100 ms needs.
    - The step relation does not force timers to fire in due order, so
      its invariants hold for every order a browser can produce.

    ** Not modelled

    - The template and [toFixed] rendering, Vue's reactivity and the root
      [new Vue] instance: presentation and framework wiring.
    - The data fields [fixSpeed], [smoothedSpeed] and [section]: no
      method reads or writes them.

    ** Plan for the next sittings

    - Refinement of the event loop's interpolation chain (successive
      [fire_interp]) by [Smoother.interpolation]; the decreasing case of
      C9 for the decay towards 0.
    - The scheduler [run_timers] as a refinement of [step] (worlds it
      produces are reachable), with the invariant that armed timers are
      not overdue.
    - Liveness of the decay: with no further input, enough scheduler fuel
      brings every reachable world to speed 0 with no interpolation or
      decay timer armed.
    - Per-branch functional theorems of [handleMouseMove] (direction,
      lost position after a reset) and of [getMousePosition]. *)

From Stdlib Require Export QArith Qabs Qround Lqa ZArith.
From stdpp Require Export base list decidable relations.

Declare Scope spin_scope.
Delimit Scope spin_scope with spin.

(** Decidable comparisons on [Q], so that the code's [<] and [===] on
    numbers are [bool_decide] of the proposition. *)
#[export] Instance Qlt_decision : RelDecision Qlt :=
  fun x y => match Qlt_le_dec x y with
             | left H => left H
             | right H => right (Qle_not_lt y x H)
             end.

#[export] Instance Qle_decision : RelDecision Qle :=
  fun x y => match Qlt_le_dec y x with
             | left H => right (Qlt_not_le y x H)
             | right H => left H
             end.

(** Structural equality of rationals (numerator and denominator). *)
#[export] Instance Q_eq_dec : EqDecision Q.
Proof. solve_decision. Defined.

(** JavaScript's strict comparison of numbers, on rationals. *)
Notation "x <q? y" := (bool_decide (Qlt x y)) (at level 70) : spin_scope.

(** Statement sequencing on a record of state: [d |> f |> g] runs [f]
    then [g], as consecutive assignments to [this] do. *)
Notation "d |> f" := (f d) (at level 69, left associativity, only parsing) : spin_scope.

Create HintDb spin.
Create Rewrite HintDb spin_rw.

Ltac invc H := inversion H; subst; clear H.

(** Close a decidable goal on concrete values by evaluation. *)
Ltac decide_by_eval := apply (bool_decide_unpack _); vm_compute; reflexivity.

(** Split every [bool_decide] of the goal and the hypotheses. *)
Ltac decide_all := repeat case_bool_decide.

(** ** Generic lemmas *)

(** Summing with [reduce((count, value) => count + value, 0)]. *)
Definition sum_list (l : list nat) : nat := fold_left (fun count value => count + value) l 0.

Lemma fold_left_add_acc (l : list nat) (a : nat) :
  fold_left (fun count value => count + value) l a = a + fold_left (fun count value => count + value) l 0.
Proof.
  revert a. induction l as [|x l IH]; intros a; simpl; [lia|].
  rewrite (IH (a + x)), (IH x). lia.
Qed.

Lemma sum_list_cons (x : nat) (l : list nat) : sum_list (x :: l) = x + sum_list l.
Proof. unfold sum_list. simpl. apply fold_left_add_acc. Qed.

#[export] Hint Rewrite sum_list_cons : spin_rw.

(** An invariant of a step relation holds along its reflexive-transitive
    closure. *)
Lemma rtc_preserved {A} (R : relation A) (P : A -> Prop) (a b : A) :
  (forall x y, R x y -> P x -> P y) -> P a -> rtc R a b -> P b.
Proof. intros Hstep Ha Hr. induction Hr; eauto. Qed.

Lemma Qabs_lt_split (x r : Q) : (Qabs x < r <-> - r < x /\ x < r)%Q.
Proof. apply Qabs_Qlt_condition. Qed.

#[export] Hint Resolve Qabs_nonneg : spin.
