(* ===== verification/Geometry.v ===== *)
(** Geometry: positions and mouse events, [getMousePosition],
    [determineSection], [getDirection] and [calcDistance] of
    [src/spin-tester.js], with the interface [MathSqrt] for the library
    function [Math.sqrt]. *)

From S2P Require Import Prelude.

Local Open Scope Z_scope.

(** ** Data *)

(** A position [{ x, y }] in page coordinates (y grows downwards). *)
Record Pos := mkPos { x : Z; y : Z }.

#[export] Instance Pos_eq_dec : EqDecision Pos.
Proof. intros [a b] [c d]. destruct (decide (a = c)), (decide (b = d)); [left|right..]; congruence. Qed.

(** The fields of a [MouseEvent] that [getMousePosition] reads. *)
Record MouseEvent := mkMouseEvent { pageX : Z; pageY : Z; clientX : Z; clientY : Z }.

(** The fields of [document.body] that [getMousePosition] reads. *)
Record Body := mkBody { scrollLeft : Z; scrollTop : Z; clientLeft : Z; clientTop : Z }.

(** The labels returned by [getDirection]: '右上', '右下', '左下',
    '左上' and '未知'. *)
Inductive Direction := DirUpperRight | DirLowerRight | DirLowerLeft | DirUpperLeft | DirUnknown.

#[export] Instance Direction_eq_dec : EqDecision Direction.
Proof. solve_decision. Defined.

(** ** Operations *)

(** [getMousePosition (e)]: the page coordinates when one of them is
    truthy (non-zero), otherwise the client coordinates corrected by the
    body's scroll offsets. *)
Definition getMousePosition (b : Body) (e : MouseEvent) : Pos :=
  if bool_decide (pageX e <> 0) || bool_decide (pageY e <> 0)
  then mkPos (pageX e) (pageY e)
  else mkPos (clientX e + scrollLeft b - clientLeft b)
             (clientY e + scrollTop b - clientTop b).

(** [determineSection (prePos, pos)]: the section (1..4) of the move from
    [prePos] to [pos], [null] when there is no previous position or the
    move is axis-aligned. *)
Definition determineSection (prePos : option Pos) (pos : Pos) : option nat :=
  match prePos with
  | None => None
  | Some pp =>
      if bool_decide (x pp < x pos)%Z && bool_decide (y pp < y pos)%Z then Some 1%nat
      else if bool_decide (x pp > x pos)%Z && bool_decide (y pp < y pos)%Z then Some 2%nat
      else if bool_decide (x pp > x pos)%Z && bool_decide (y pp > y pos)%Z then Some 3%nat
      else if bool_decide (x pp < x pos)%Z && bool_decide (y pp > y pos)%Z then Some 4%nat
      else None
  end.

(** [getDirection (section)]. *)
Definition getDirection (section : nat) : Direction :=
  match section%nat with
  | 1%nat => DirUpperRight
  | 2%nat => DirLowerRight
  | 3%nat => DirLowerLeft
  | 4%nat => DirUpperLeft
  | _ => DirUnknown
  end.

(** [Math.sqrt] on the non-negative rationals the code passes to it: the
    laws [calcDistance]'s callers rely on. *)
Class MathSqrt := {
  msqrt : Q -> Q;
  msqrt_nonneg : forall q, (0 <= q)%Q -> (0 <= msqrt q)%Q;
  msqrt_pos : forall q, (0 < q)%Q -> (0 < msqrt q)%Q
}.

(** [calcDistance (p1, p2)]. *)
Definition calcDistance `{MathSqrt} (p1 p2 : Pos) : Q :=
  let diffX := (x p2 - x p1)%Z in
  let diffY := (y p2 - y p1)%Z in
  msqrt (inject_Z (diffX * diffX + diffY * diffY)).

(** A square root rounded up to three decimals, used to run the model on
    concrete inputs; every theorem holds for any [MathSqrt]. *)
Definition sqrt_milli (q : Q) : Q :=
  (inject_Z (Z.sqrt (Qceiling (q * inject_Z 1000000))) / inject_Z 1000)%Q.

(** The sign pattern of a move, the specification of [determineSection]:
    Q1 = (+,+), Q2 = (-,+), Q3 = (-,-), Q4 = (+,-). *)
Definition section_of_signs (sx sy : Z) : option nat :=
  match sx, sy with
  | 1%Z, 1%Z => Some 1%nat
  | (-1)%Z, 1%Z => Some 2%nat
  | (-1)%Z, (-1)%Z => Some 3%nat
  | 1%Z, (-1)%Z => Some 4%nat
  | _, _ => None
  end.

(** ** Lemmas *)

Local Open Scope Q_scope.

Lemma sqrt_milli_nonneg q : 0 <= q -> 0 <= sqrt_milli q.
Proof.
  intros _. unfold sqrt_milli, Qdiv. apply Qmult_le_0_compat.
  - change 0 with (inject_Z 0). rewrite <- Zle_Qle. apply Z.sqrt_nonneg.
  - apply Qinv_le_0_compat. change 0 with (inject_Z 0). rewrite <- Zle_Qle. lia.
Qed.

Lemma sqrt_milli_pos q : 0 < q -> 0 < sqrt_milli q.
Proof.
  intros Hq. unfold sqrt_milli, Qdiv. apply Qmult_lt_0_compat.
  - change 0 with (inject_Z 0). rewrite <- Zlt_Qlt. apply Z.sqrt_pos.
    assert (0 < q * inject_Z 1000000) as Hp by (apply Qmult_lt_0_compat; [done | reflexivity]).
    pose proof (Qle_ceiling (q * inject_Z 1000000)) as Hc.
    assert (0 < inject_Z (Qceiling (q * inject_Z 1000000))) as H0 by (eapply Qlt_le_trans; eauto).
    change 0 with (inject_Z 0) in H0. rewrite <- Zlt_Qlt in H0. lia.
  - apply Qinv_lt_0_compat. reflexivity.
Qed.

#[export] Instance sqrt_milli_MathSqrt : MathSqrt :=
  {| msqrt := sqrt_milli; msqrt_nonneg := sqrt_milli_nonneg; msqrt_pos := sqrt_milli_pos |}.

Local Open Scope Z_scope.

Lemma determineSection_Some_range (pp : option Pos) (p : Pos) (s : nat) :
  determineSection pp p = Some s -> (1 <= s <= 4)%nat.
Proof.
  destruct pp as [pp|]; simpl; [|done].
  decide_all; simpl; intros Hs; simplify_eq; lia.
Qed.

(** C14: [determineSection] is a function of the signs of the displacement
    only: Q1 = (+,+), Q2 = (-,+), Q3 = (-,-), Q4 = (+,-), and no section
    when a component is zero. *)
Theorem determineSection_signs (pp p : Pos) :
  determineSection (Some pp) p = section_of_signs (Z.sgn (x p - x pp)) (Z.sgn (y p - y pp)).
Proof.
  unfold determineSection, section_of_signs.
  destruct (Z.sgn_spec (x p - x pp)) as [[? Ex]|[[? Ex]|[? Ex]]];
    destruct (Z.sgn_spec (y p - y pp)) as [[? Ey]|[[? Ey]|[? Ey]]];
    rewrite Ex; rewrite ?Ey; decide_all; simpl; (reflexivity || lia).
Qed.

