(* ===== verification/Data.v ===== *)
(** The component's data: the record returned by [data()] in
    [src/spin-tester.js] (lines 9-25), its initial value, one setter per
    assigned field, and [clearState] (lines 85-91). *)

From S2P Require Import Prelude Geometry.

Local Open Scope spin_scope.

(** The fields the methods read or write. The timer handles
    [trackTimer] and [speedTimer] live in the event-loop world
    ([EventLoop.v]); [fixSpeed], [smoothedSpeed] and [section] are never
    used after initialisation. *)
Record Data := mkData {
  pos : option Pos;
  arrSection : list nat;
  mousePosArr : list Pos;
  cumulate : nat;
  speed : Q;
  direction : Direction;
  isTracking : bool;
  timeout : Z;
  lock : bool;
  dampingCoefficient : Q
}.

(** [data()]. *)
Definition data_init : Data :=
  {| pos := None; arrSection := [0; 0; 0; 0]; mousePosArr := []; cumulate := 0;
     speed := 0%Q; direction := DirUnknown; isTracking := true; timeout := 20%Z;
     lock := false; dampingCoefficient := (1 # 10)%Q |}.

(** ** Assignments [this.f = v] *)

Definition set_pos (v : option Pos) (d : Data) : Data :=
  {| pos := v; arrSection := arrSection d; mousePosArr := mousePosArr d; cumulate := cumulate d;
     speed := speed d; direction := direction d; isTracking := isTracking d; timeout := timeout d;
     lock := lock d; dampingCoefficient := dampingCoefficient d |}.

Definition set_arrSection (v : list nat) (d : Data) : Data :=
  {| pos := pos d; arrSection := v; mousePosArr := mousePosArr d; cumulate := cumulate d;
     speed := speed d; direction := direction d; isTracking := isTracking d; timeout := timeout d;
     lock := lock d; dampingCoefficient := dampingCoefficient d |}.

Definition set_mousePosArr (v : list Pos) (d : Data) : Data :=
  {| pos := pos d; arrSection := arrSection d; mousePosArr := v; cumulate := cumulate d;
     speed := speed d; direction := direction d; isTracking := isTracking d; timeout := timeout d;
     lock := lock d; dampingCoefficient := dampingCoefficient d |}.

Definition set_cumulate (v : nat) (d : Data) : Data :=
  {| pos := pos d; arrSection := arrSection d; mousePosArr := mousePosArr d; cumulate := v;
     speed := speed d; direction := direction d; isTracking := isTracking d; timeout := timeout d;
     lock := lock d; dampingCoefficient := dampingCoefficient d |}.

Definition set_speed (v : Q) (d : Data) : Data :=
  {| pos := pos d; arrSection := arrSection d; mousePosArr := mousePosArr d; cumulate := cumulate d;
     speed := v; direction := direction d; isTracking := isTracking d; timeout := timeout d;
     lock := lock d; dampingCoefficient := dampingCoefficient d |}.

Definition set_direction (v : Direction) (d : Data) : Data :=
  {| pos := pos d; arrSection := arrSection d; mousePosArr := mousePosArr d; cumulate := cumulate d;
     speed := speed d; direction := v; isTracking := isTracking d; timeout := timeout d;
     lock := lock d; dampingCoefficient := dampingCoefficient d |}.

Definition set_isTracking (v : bool) (d : Data) : Data :=
  {| pos := pos d; arrSection := arrSection d; mousePosArr := mousePosArr d; cumulate := cumulate d;
     speed := speed d; direction := direction d; isTracking := v; timeout := timeout d;
     lock := lock d; dampingCoefficient := dampingCoefficient d |}.

Definition set_lock (v : bool) (d : Data) : Data :=
  {| pos := pos d; arrSection := arrSection d; mousePosArr := mousePosArr d; cumulate := cumulate d;
     speed := speed d; direction := direction d; isTracking := isTracking d; timeout := timeout d;
     lock := v; dampingCoefficient := dampingCoefficient d |}.

(** [Array.prototype.fill(0)]: every slot becomes 0, the length is kept. *)
Definition fill0 (l : list nat) : list nat := map (fun _ => 0) l.

(** [clearState ()]. *)
Definition clearState (d : Data) : Data :=
  d |> set_pos None
    |> set_speed 0%Q
    |> set_mousePosArr []
    |> set_arrSection (fill0 (arrSection d))
    |> set_direction DirUnknown.

(** ** Lemmas *)

Lemma length_fill0 (l : list nat) : length (fill0 l) = length l.
Proof. apply length_map. Qed.

Lemma fill0_idem (l : list nat) : fill0 (fill0 l) = fill0 l.
Proof. unfold fill0. rewrite map_map. reflexivity. Qed.

(** What [clearState] keeps and what it resets. *)
Lemma clearState_fields (d : Data) :
  pos (clearState d) = None /\ speed (clearState d) = 0%Q /\ mousePosArr (clearState d) = [] /\
  arrSection (clearState d) = fill0 (arrSection d) /\ direction (clearState d) = DirUnknown /\
  cumulate (clearState d) = cumulate d /\ isTracking (clearState d) = isTracking d /\
  lock (clearState d) = lock d /\ timeout (clearState d) = timeout d /\
  dampingCoefficient (clearState d) = dampingCoefficient d.
Proof. repeat split. Qed.

Lemma clearState_idem (d : Data) : clearState (clearState d) = clearState d.
Proof. unfold clearState. simpl. rewrite fill0_idem. reflexivity. Qed.
