(* ===== verification/Tracker.v ===== *)
(** The quadrant tracker: [updateSection] of [src/spin-tester.js]
    (lines 99-129) on the [arrSection] array and the [cumulate] counter;
    the array's well-formedness; an abstract automaton of revolution
    attempts ([Attempt], [astep]) and the refinement theorem relating the
    two; what the automaton, hence the code, counts as a revolution. *)

From S2P Require Import Prelude Geometry Data.

Local Open Scope spin_scope.

(** ** The code *)

(** [arr[i - 1] === v] where the index [i] may be [undefined] (a read
    out of a table): [undefined - 1] is [NaN] and the read is
    [undefined], which is not [===] to a number. *)
Definition slot_is (arr : list nat) (i : option nat) (v : nat) : bool :=
  match i with
  | Some i => bool_decide (arr !! (i - 1) = Some v)
  | None => false
  end.

(** The tables [[4, 1, 2, 3]] and [[2, 3, 4, 1]] of [pre] and [next]. *)
Definition preTable : list nat := [4; 1; 2; 3].
Definition nextTable : list nat := [2; 3; 4; 1].

(** [updateSection (section)]. [sectionsCount] is read once, before the
    possible reset; the clockwise test reads the array after it. *)
Definition updateSection (section : nat) (d : Data) : Data :=
  let d1 := set_arrSection (<[section - 1 := 1]> (arrSection d)) d in
  let sectionsCount := sum_list (arrSection d1) in
  let d2 := if bool_decide (sectionsCount = 4)
            then d1 |> set_cumulate (S (cumulate d1)) |> clearState
            else d1 in
  let pre := preTable !! (section - 1) in
  let next := nextTable !! (section - 1) in
  let clockwise :=
    (slot_is (arrSection d2) pre 0 || slot_is (arrSection d2) pre 1)
    && slot_is (arrSection d2) next 0
    && bool_decide (sectionsCount < 4) in
  if clockwise then d2 else clearState d2.

(** The tracker's part of a run: [updateSection] applied to successive
    sections. *)
Fixpoint track_run (sections : list nat) (d : Data) : Data :=
  match sections with
  | [] => d
  | s :: rest => track_run rest (updateSection s d)
  end.

(** [updateSection] with the predecessor half of the clockwise test
    removed: the reference against which the code's test is compared. *)
Definition updateSection_succ_only (section : nat) (d : Data) : Data :=
  let d1 := set_arrSection (<[section - 1 := 1]> (arrSection d)) d in
  let sectionsCount := sum_list (arrSection d1) in
  let d2 := if bool_decide (sectionsCount = 4)
            then d1 |> set_cumulate (S (cumulate d1)) |> clearState
            else d1 in
  let next := nextTable !! (section - 1) in
  if slot_is (arrSection d2) next 0 && bool_decide (sectionsCount < 4) then d2 else clearState d2.

(** ** Well-formedness of [arrSection] *)

(** Four slots, each 0 or 1. *)
Definition tracker_wf (arr : list nat) : Prop :=
  length arr = 4 /\ Forall (fun v => v = 0 \/ v = 1) arr.

#[export] Instance tracker_wf_dec (arr : list nat) : Decision (tracker_wf arr).
Proof. unfold tracker_wf. apply _. Defined.

(** ** The abstract automaton of a revolution attempt *)

Inductive quad := Q1 | Q2 | Q3 | Q4.

#[export] Instance quad_eq_dec : EqDecision quad.
Proof. solve_decision. Defined.

(** The section number of a quadrant, as [determineSection] returns it. *)
Definition qnum (q : quad) : nat :=
  match q with Q1 => 1 | Q2 => 2 | Q3 => 3 | Q4 => 4 end.

(** The clockwise successor and predecessor. *)
Definition qnext (q : quad) : quad :=
  match q with Q1 => Q2 | Q2 => Q3 | Q3 => Q4 | Q4 => Q1 end.
Definition qprev (q : quad) : quad :=
  match q with Q1 => Q4 | Q2 => Q1 | Q3 => Q2 | Q4 => Q3 end.

(** How many quadrants a clockwise arc has covered. *)
Inductive arclen := L1 | L2 | L3.

(** The state of an attempt: nothing visited; a clockwise arc of one to
    three quadrants ending at [last]; or two opposite quadrants [a] and
    [a + 2], reached by skipping one (the code accepts that skip but can
    never complete a revolution from it). *)
Inductive Attempt :=
  | Idle
  | Arc (last : quad) (len : arclen)
  | Gap (a : quad).

(** One observed quadrant; the boolean says whether a revolution is
    counted. *)
Definition astep (p : Attempt) (q : quad) : Attempt * bool :=
  match p with
  | Idle => (Arc q L1, false)
  | Arc s len =>
      if decide (q = s) then (p, false)
      else if decide (q = qnext s) then
        match len with
        | L1 => (Arc q L2, false)
        | L2 => (Arc q L3, false)
        | L3 => (Idle, true)
        end
      else match len with
           | L1 => if decide (q = qnext (qnext s)) then (Gap s, false) else (Idle, false)
           | _ => (Idle, false)
           end
  | Gap a => if decide (q = a \/ q = qnext (qnext a)) then (p, false) else (Idle, false)
  end.

(** A run of the automaton: the final attempt and the number of
    revolutions counted. *)
Fixpoint arun (p : Attempt) (qs : list quad) : Attempt * nat :=
  match qs with
  | [] => (p, 0)
  | q :: rest =>
      let '(p', r) := astep p q in
      let '(p'', n) := arun p' rest in
      (p'', (if r then 1 else 0) + n)
  end.

(** The array an attempt denotes: slot [i - 1] is 1 when quadrant [i]
    has been visited. *)
Definition mark (q : quad) (arr : list nat) : list nat := <[qnum q - 1 := 1]> arr.

Definition gamma (p : Attempt) : list nat :=
  let zeros := [0; 0; 0; 0] in
  match p with
  | Idle => zeros
  | Arc s L1 => mark s zeros
  | Arc s L2 => mark s (mark (qprev s) zeros)
  | Arc s L3 => mark s (mark (qprev s) (mark (qprev (qprev s)) zeros))
  | Gap a => mark a (mark (qnext (qnext a)) zeros)
  end.

(** ** Lemmas *)

Ltac quad_cases :=
  repeat match goal with
         | q : quad |- _ => destruct q
         | l : arclen |- _ => destruct l
         | p : Attempt |- _ => destruct p
         end.

(** One observation on an array an attempt denotes, computed case by
    case (the seventeen attempts and four quadrants). *)
Lemma updateSection_gamma (d : Data) (p : Attempt) (q : quad) :
  arrSection d = gamma p ->
  arrSection (updateSection (qnum q) d) = gamma (fst (astep p q)) /\
  cumulate (updateSection (qnum q) d) = (if snd (astep p q) then 1 else 0) + cumulate d.
Proof.
  intros H. unfold updateSection. simpl. rewrite H.
  quad_cases; vm_compute; split; reflexivity.
Qed.

(** C1: refinement. On an array that denotes an attempt [p], observing
    quadrant [q] leaves the array that denotes [astep p q], and
    [cumulate] grows by one exactly when the automaton counts a
    revolution. *)
Theorem updateSection_refines (d : Data) (p : Attempt) (q : quad) :
  arrSection d = gamma p ->
  arrSection (updateSection (qnum q) d) = gamma (fst (astep p q)) /\
  cumulate (updateSection (qnum q) d) = (if snd (astep p q) then 1 else 0) + cumulate d.
Proof. apply updateSection_gamma. Qed.

(** The refinement extends to runs: the sections of a run of the code are
    the quadrants of a run of the automaton. *)
Theorem track_run_refines (qs : list quad) (d : Data) (p : Attempt) :
  arrSection d = gamma p ->
  arrSection (track_run (map qnum qs) d) = gamma (fst (arun p qs)) /\
  cumulate (track_run (map qnum qs) d) = snd (arun p qs) + cumulate d.
Proof.
  revert d p. induction qs as [|q qs IH]; intros d p H; simpl; [done|].
  destruct (updateSection_gamma d p q H) as [Ha Hc].
  destruct (astep p q) as [p' r] eqn:E. simpl in *.
  destruct (IH _ _ Ha) as [Ha' Hc']. destruct (arun p' qs) as [p'' n]. simpl in *.
  split; [done|]. rewrite Hc', Hc. lia.
Qed.

(** ** What the automaton counts *)

Definition arclen_nat (l : arclen) : nat := match l with L1 => 1 | L2 => 2 | L3 => 3 end.

(** A clockwise arc of [k] quadrants ending at [s], each quadrant
    observed one or more times in a row. *)
Inductive cw_run : quad -> nat -> list quad -> Prop :=
  | cw_one s n : cw_run s 1 (repeat s (S n))
  | cw_more s k blk n : cw_run (qprev s) k blk -> cw_run s (S k) (blk ++ repeat s (S n)).

#[export] Hint Constructors cw_run : spin.

Lemma repeat_snoc {A} (a : A) (n : nat) : repeat a n ++ [a] = repeat a (S n).
Proof. induction n as [|n IH]; simpl; [done|]. by rewrite IH. Qed.

(** One more observation of the arc's last quadrant keeps it an arc. *)
Lemma cw_run_stutter s k blk : cw_run s k blk -> cw_run s k (blk ++ [s]).
Proof.
  intros Hr. invc Hr.
  - rewrite repeat_snoc. constructor.
  - rewrite <- app_assoc, repeat_snoc. by constructor.
Qed.

Lemma qprev_qnext q : qprev (qnext q) = q.
Proof. by destruct q. Qed.

#[export] Hint Resolve cw_run_stutter : spin.

Lemma arun_snoc (p : Attempt) (qs : list quad) (q : quad) :
  arun p (qs ++ [q]) =
  (fst (astep (fst (arun p qs)) q),
   snd (arun p qs) + (if snd (astep (fst (arun p qs)) q) then 1 else 0)).
Proof.
  revert p. induction qs as [|q' qs IH]; intros p; simpl.
  - destruct (astep p q) as [p' []]; simpl; f_equal; lia.
  - destruct (astep p q') as [p' r]. rewrite IH.
    destruct (arun p' qs) as [p'' n]. simpl. f_equal. lia.
Qed.

(** Invariant of runs from [Idle]: when the attempt is an arc of [len]
    quadrants ending at [s], the observations end with such an arc. *)
Lemma arun_arc_suffix (qs : list quad) (s : quad) (len : arclen) :
  fst (arun Idle qs) = Arc s len ->
  exists pre blk, qs = pre ++ blk /\ cw_run s (arclen_nat len) blk.
Proof.
  revert s len. induction qs as [|q qs IH] using rev_ind; intros s len H; [done|].
  rewrite arun_snoc in H. simpl in H.
  destruct (fst (arun Idle qs)) as [|s' l|a] eqn:E.
  - simpl in H. injection H as <- <-. exists qs, [q]. split; [done|]. apply (cw_one q 0).
  - destruct (IH _ _ eq_refl) as (pre & blk & -> & Hr). cbn [astep] in H.
    destruct (decide (q = s')) as [->|Hne]; simpl in H.
    + injection H as <- <-. exists pre, (blk ++ [s']). rewrite app_assoc. eauto with spin.
    + destruct (decide (q = qnext s')) as [->|Hn2]; simpl in H.
      * destruct l; simpl in H; try discriminate; injection H as <- <-;
          exists pre, (blk ++ [qnext s']); (split; [by rewrite app_assoc|]);
          apply (cw_more _ _ _ 0); by rewrite qprev_qnext.
      * destruct l; [destruct (decide _)|..]; discriminate.
  - simpl in H. destruct (decide _); discriminate.
Qed.

Lemma arun_app (p : Attempt) (xs ys : list quad) :
  arun p (xs ++ ys) =
  (fst (arun (fst (arun p xs)) ys), snd (arun p xs) + snd (arun (fst (arun p xs)) ys)).
Proof.
  revert p. induction xs as [|x xs IH]; intros p; simpl; [by destruct (arun p ys)|].
  destruct (astep p x) as [p' r]. rewrite IH.
  destruct (arun p' xs) as [p1 n1]. destruct (arun p1 ys) as [p2 n2]. simpl. f_equal. lia.
Qed.

Lemma arun_repeat_last (s : quad) (l : arclen) (n : nat) :
  arun (Arc s l) (repeat s n) = (Arc s l, 0).
Proof.
  induction n as [|n IH]; simpl; [done|].
  rewrite decide_True by done. by rewrite IH.
Qed.

Lemma qnext_qprev q : qnext (qprev q) = q.
Proof. by destruct q. Qed.

Lemma qprev_neq q : qprev q <> q.
Proof. by destruct q. Qed.

(** An arc observed from [Idle] is an arc of the automaton, with no
    revolution counted on the way. *)
Lemma arun_cw_run (s : quad) (k : nat) (blk : list quad) :
  cw_run s k blk -> k <= 3 ->
  exists l, arclen_nat l = k /\ arun Idle blk = (Arc s l, 0).
Proof.
  induction 1 as [s n|s k blk n Hr IH]; intros Hk.
  - exists L1. split; [done|]. simpl. by rewrite arun_repeat_last.
  - destruct IH as [l [Hl Hrun]]; [lia|].
    rewrite arun_app, Hrun. simpl.
    rewrite decide_False by (apply not_eq_sym, qprev_neq).
    rewrite decide_True by (by rewrite qnext_qprev).
    destruct l; simpl in Hl; try lia; [exists L2 | exists L3];
      (split; [simpl; lia|]); by rewrite arun_repeat_last.
Qed.

(** The automaton counts a revolution exactly when a three-quadrant
    clockwise arc is extended by its clockwise successor. *)
Lemma astep_revolution_iff (p : Attempt) (q : quad) :
  snd (astep p q) = true <-> exists s, p = Arc s L3 /\ q = qnext s.
Proof.
  split.
  - destruct p as [|s l|a]; simpl; [done| |by destruct (decide _)].
    destruct (decide (q = s)); [done|]. destruct (decide (q = qnext s)).
    + destruct l; simpl; [done|done|]. eauto.
    + destruct l; [destruct (decide _)|..]; done.
  - intros (s & -> & ->). simpl.
    rewrite decide_False by (by destruct s). by rewrite decide_True.
Qed.

(** C2: soundness of revolution counting. Started from a cleared array,
    the code counts a revolution on the last observed quadrant [q] only if
    the observations before it end with a clockwise arc of three
    quadrants (each possibly repeated) ending just before [q]: the four
    quadrants were entered in clockwise order. *)
Theorem revolution_needs_clockwise_arc (d : Data) (qs : list quad) (q : quad) :
  arrSection d = [0; 0; 0; 0] ->
  cumulate (track_run (map qnum (qs ++ [q])) d) = S (cumulate (track_run (map qnum qs) d)) ->
  exists pre blk, qs = pre ++ blk /\ cw_run (qprev q) 3 blk.
Proof.
  intros H0 Hc.
  destruct (track_run_refines (qs ++ [q]) d Idle H0) as [_ Hc1].
  destruct (track_run_refines qs d Idle H0) as [_ Hc2].
  rewrite Hc1, Hc2, arun_snoc in Hc. simpl in Hc.
  destruct (snd (astep (fst (arun Idle qs)) q)) eqn:Hr; [|lia].
  apply astep_revolution_iff in Hr as (s & Harc & ->).
  rewrite qprev_qnext. exact (arun_arc_suffix qs s L3 Harc).
Qed.

(** C3: completeness of revolution counting. From a cleared array, a
    clockwise arc of three quadrants, each observed one or more times,
    followed by the fourth quadrant, counts exactly one revolution and
    clears the array. *)
Theorem clockwise_arc_counts (d : Data) (blk : list quad) (q : quad) :
  arrSection d = [0; 0; 0; 0] -> cw_run (qprev q) 3 blk ->
  cumulate (track_run (map qnum (blk ++ [q])) d) = S (cumulate d) /\
  arrSection (track_run (map qnum (blk ++ [q])) d) = [0; 0; 0; 0].
Proof.
  intros H0 Hr.
  destruct (arun_cw_run _ _ _ Hr (le_n 3)) as [l [Hl Hrun]]. destruct l; try discriminate.
  destruct (track_run_refines (blk ++ [q]) d Idle H0) as [Ha Hc].
  rewrite arun_snoc, Hrun in Ha, Hc. simpl in Ha, Hc.
  rewrite decide_False in Ha, Hc by (intros E; apply (qprev_neq q); by rewrite <- E).
  rewrite decide_True in Ha, Hc by (by rewrite qnext_qprev).
  simpl in Ha, Hc. split; [lia|done].
Qed.

(** C15: the code accepts a skipped quadrant. After one quadrant [s], the
    opposite quadrant [s + 2] neither resets the attempt nor counts: both
    slots stay set (the automaton's [Gap]). *)
Theorem updateSection_accepts_skip (d : Data) (s : quad) :
  arrSection d = gamma (Arc s L1) ->
  arrSection (updateSection (qnum (qnext (qnext s))) d) = gamma (Gap s) /\
  cumulate (updateSection (qnum (qnext (qnext s))) d) = cumulate d.
Proof.
  intros H. destruct (updateSection_gamma d _ (qnext (qnext s)) H) as [Ha Hc].
  revert Ha Hc. destruct s; simpl; auto.
Qed.

(** From a skip, no observation counts a revolution: the attempt stalls
    or is reset. *)
Lemma astep_gap_no_revolution (a q : quad) :
  astep (Gap a) q = (Gap a, false) \/ astep (Gap a) q = (Idle, false).
Proof. simpl. destruct (decide _); auto. Qed.

(** C16: a counter-clockwise step aborts the attempt: observing the
    predecessor of the arc's last quadrant clears the array without
    counting. *)
Theorem updateSection_counterclockwise_resets (d : Data) (s : quad) (l : arclen) :
  arrSection d = gamma (Arc s l) ->
  arrSection (updateSection (qnum (qprev s)) d) = [0; 0; 0; 0] /\
  cumulate (updateSection (qnum (qprev s)) d) = cumulate d.
Proof.
  intros H. destruct (updateSection_gamma d _ (qprev s) H) as [Ha Hc].
  revert Ha Hc. destruct s, l; simpl; auto.
Qed.

Lemma tracker_wf_cases (arr : list nat) :
  tracker_wf arr ->
  exists a b c e, arr = [a; b; c; e] /\ (a = 0 \/ a = 1) /\ (b = 0 \/ b = 1) /\
                  (c = 0 \/ c = 1) /\ (e = 0 \/ e = 1).
Proof.
  intros [Hl Hf]. destruct arr as [|a [|b [|c [|e [|]]]]]; simpl in Hl; try lia.
  repeat match goal with H : Forall _ (_ :: _) |- _ => invc H end.
  eauto 10.
Qed.

(** C17: the predecessor half of the clockwise test has no effect: on
    every well-formed array and every section, [updateSection] behaves as
    [updateSection_succ_only], which decides on the successor slot and the
    count alone. *)
Theorem updateSection_pre_test_irrelevant (s : nat) (d : Data) :
  tracker_wf (arrSection d) -> 1 <= s <= 4 -> updateSection s d = updateSection_succ_only s d.
Proof.
  intros Hwf Hs. destruct (tracker_wf_cases _ Hwf) as (a & b & c & e & Harr & Ha & Hb & Hc & He).
  unfold updateSection, updateSection_succ_only. rewrite Harr.
  destruct s as [|[|[|[|[|s]]]]]; try lia; destruct_or!; subst; reflexivity.
Qed.

(** Every array an attempt denotes is well formed. *)
Lemma gamma_wf (p : Attempt) : tracker_wf (gamma p).
Proof. quad_cases; apply (bool_decide_unpack _); vm_compute; reflexivity. Qed.

(** [updateSection] keeps the array well formed for every section
    [determineSection] can return, whatever the array's history. *)
Lemma updateSection_wf (d : Data) (s : nat) :
  tracker_wf (arrSection d) -> 1 <= s <= 4 -> tracker_wf (arrSection (updateSection s d)).
Proof.
  intros Hwf Hs. destruct (tracker_wf_cases _ Hwf) as (a & b & c & e & Harr & Ha & Hb & Hc & He).
  unfold updateSection. simpl. rewrite Harr.
  destruct s as [|[|[|[|[|s]]]]]; try lia;
    destruct_or!; subst; apply (bool_decide_unpack _); vm_compute; reflexivity.
Qed.

(** ** Witnesses *)

Lemma updateSection_refines_witness :
  arrSection (updateSection (qnum Q2) (track_run [1] data_init)) = gamma (fst (astep (Arc Q1 L1) Q2)) /\
  cumulate (updateSection (qnum Q2) (track_run [1] data_init)) =
    (if snd (astep (Arc Q1 L1) Q2) then 1 else 0) + cumulate (track_run [1] data_init).
Proof. apply updateSection_refines. reflexivity. Defined.

Lemma revolution_needs_clockwise_arc_witness :
  exists pre blk, [Q1; Q2; Q3] = pre ++ blk /\ cw_run (qprev Q4) 3 blk.
Proof. apply (revolution_needs_clockwise_arc data_init); reflexivity. Defined.

(** The specification's sequence Q1, Q1, Q2, Q3, Q4. *)
Lemma clockwise_arc_counts_witness :
  cumulate (track_run (map qnum ([Q1; Q1; Q2; Q3] ++ [Q4])) data_init) = S (cumulate data_init) /\
  arrSection (track_run (map qnum ([Q1; Q1; Q2; Q3] ++ [Q4])) data_init) = [0; 0; 0; 0].
Proof.
  apply clockwise_arc_counts; [reflexivity|].
  exact (cw_more Q3 2 [Q1; Q1; Q2] 0 (cw_more Q2 1 [Q1; Q1] 0 (cw_one Q1 1))).
Defined.

(** The specification's sequence Q1, Q3: no reset. *)
Lemma updateSection_accepts_skip_witness :
  arrSection (updateSection (qnum (qnext (qnext Q1))) (track_run [1] data_init)) = gamma (Gap Q1) /\
  cumulate (updateSection (qnum (qnext (qnext Q1))) (track_run [1] data_init)) =
    cumulate (track_run [1] data_init).
Proof. apply updateSection_accepts_skip. reflexivity. Defined.

Lemma updateSection_counterclockwise_resets_witness :
  arrSection (updateSection (qnum (qprev Q2)) (track_run [1; 2] data_init)) = [0; 0; 0; 0] /\
  cumulate (updateSection (qnum (qprev Q2)) (track_run [1; 2] data_init)) =
    cumulate (track_run [1; 2] data_init).
Proof. apply (updateSection_counterclockwise_resets _ Q2 L2). reflexivity. Defined.

Lemma updateSection_pre_test_irrelevant_witness :
  updateSection 1 data_init = updateSection_succ_only 1 data_init.
Proof. apply updateSection_pre_test_irrelevant; [decide_by_eval | lia]. Defined.
