(* ===== verification/Smoother.v ===== *)
(** The speed smoother: [lerp] (lines 160-162 of [src/spin-tester.js]),
    one call of the [interpolate] closure of [interpolateValues]
    (lines 183-200), and the whole run of the closure until it resolves,
    as the list of values it writes to [this.speed] (line 195, then
    line 206 after the promise resolves). Termination with an explicit
    bound on the number of calls, the final snap to the target, bounds
    and strict monotonicity of the written values. The lock and the
    timers around the run are in [EventLoop.v]. *)

From Stdlib Require Import Sorted.
From S2P Require Import Prelude.

Local Open Scope Q_scope.
Local Open Scope spin_scope.

(** ** The code *)

(** [lerp (start, end, amt)]. *)
Definition lerp (start end' amt : Q) : Q := (1 - amt) * start + amt * end'.

(** What one call of [interpolate (current)] does: resolve the promise,
    or write [this.speed] and schedule the next call 5 ms later. *)
Inductive Tick := Resolve (v : Q) | Continue (v : Q).

(** [interpolate (current)], closing over [end], [damping] and
    [threshold]. *)
Definition interpolate (current end' damping threshold : Q) : Tick :=
  let interpolatedValue := lerp current end' damping in
  let difference := Qabs (interpolatedValue - end') in
  if difference <q? threshold then Resolve interpolatedValue else Continue interpolatedValue.

(** The successive calls from [interpolate (start)] on, with at most
    [fuel] calls: the values written to [this.speed], the last one being
    [this.speed = end] after the promise resolves; [None] when the fuel
    runs out first. *)
Fixpoint interpolation (fuel : nat) (current end' damping threshold : Q) : option (list Q) :=
  match fuel with
  | O => None
  | S fuel' =>
      match interpolate current end' damping threshold with
      | Resolve _ => Some [end']
      | Continue v => (fun ws => v :: ws) <$> interpolation fuel' v end' damping threshold
      end
  end.

(** Enough calls for any start: the distance to the target shrinks by
    at least [damping * threshold] per call that does not resolve. *)
Definition interp_bound (start end' damping threshold : Q) : nat :=
  S (Z.to_nat (Qceiling (Qabs (start - end') / (damping * threshold)))).

(** ** Lemmas *)

Lemma lerp_sub (c e d : Q) : lerp c e d - e == (1 - d) * (c - e).
Proof. unfold lerp. ring. Qed.

Lemma lerp_error (c e d : Q) : 0 <= d <= 1 -> Qabs (lerp c e d - e) == (1 - d) * Qabs (c - e).
Proof.
  intros Hd. rewrite lerp_sub, Qabs_Qmult.
  rewrite (Qabs_pos (1 - d)) by lra. reflexivity.
Qed.

Lemma interpolation_S (fuel : nat) (c e d t : Q) :
  interpolation (S fuel) c e d t =
  if Qabs (lerp c e d - e) <q? t then Some [e]
  else (fun ws => lerp c e d :: ws) <$> interpolation fuel (lerp c e d) e d t.
Proof. cbn [interpolation]. unfold interpolate. by destruct (bool_decide _). Qed.

(** More fuel never changes a finished run. *)
Lemma interpolation_more_fuel (n k : nat) (c e d t : Q) (ws : list Q) :
  interpolation n c e d t = Some ws -> interpolation (n + k) c e d t = Some ws.
Proof.
  revert c ws. induction n as [|n IH]; intros c ws H; [done|].
  rewrite Nat.add_succ_l, interpolation_S. rewrite interpolation_S in H.
  case_bool_decide; [done|].
  destruct (interpolation n (lerp c e d) e d t) as [ws'|] eqn:E; [|done].
  by rewrite (IH _ _ E).
Qed.

(** The inductive step of termination: from a distance of at most
    [n * damping * threshold], [n + 1] calls suffice. *)
Lemma interpolation_total_from (n : nat) (c e d t : Q) :
  0 < d <= 1 -> 0 < t -> Qabs (c - e) <= inject_Z (Z.of_nat n) * (d * t) ->
  is_Some (interpolation (S n) c e d t).
Proof.
  intros Hd Ht. revert c. induction n as [|n IH]; intros c Hc.
  - rewrite interpolation_S. case_bool_decide as Hlt; [by eexists|].
    exfalso. apply Hlt. rewrite lerp_error by lra.
    change (inject_Z (Z.of_nat 0)) with 0 in Hc. rewrite Qmult_0_l in Hc.
    pose proof (Qabs_nonneg (c - e)). nra.
  - rewrite interpolation_S. case_bool_decide as Hlt; [by eexists|].
    apply Qnot_lt_le in Hlt. rewrite lerp_error in Hlt by lra.
    destruct (IH (lerp c e d)) as [ws Hws].
    + rewrite lerp_error by lra.
      rewrite Nat2Z.inj_succ, <- Z.add_1_r, inject_Z_plus in Hc.
      assert (t <= Qabs (c - e)) by (pose proof (Qabs_nonneg (c - e)); nra).
      assert (d * t <= d * Qabs (c - e)) by (apply Qmult_le_l; lra).
      change (inject_Z 1) with 1 in Hc. lra.
    + rewrite Hws. by eexists.
Qed.

Lemma Qceiling_bound (a b : Q) : 0 < b -> 0 <= a -> a <= inject_Z (Z.of_nat (Z.to_nat (Qceiling (a / b)))) * b.
Proof.
  intros Hb Ha. rewrite Z2Nat.id.
  - pose proof (Qle_ceiling (a / b)) as Hc.
    apply (Qmult_le_compat_r _ _ b) in Hc; [|lra].
    assert (a / b * b == a) as E by (field; intros E; rewrite E in Hb; apply (Qlt_irrefl 0 Hb)).
    rewrite E in Hc. exact Hc.
  - assert (0 <= a / b) by (apply Qle_shift_div_l; lra).
    pose proof (Qle_ceiling (a / b)). rewrite Zle_Qle. change (inject_Z 0) with 0. lra.
Qed.

(** C4: termination of [interpolateValues]: with a damping in (0, 1] and
    a positive threshold, the closure resolves within
    [interp_bound start end damping threshold] calls, whatever the start
    and the target. *)
Theorem interpolation_terminates (start end' damping threshold : Q) :
  0 < damping <= 1 -> 0 < threshold ->
  is_Some (interpolation (interp_bound start end' damping threshold) start end' damping threshold).
Proof.
  intros Hd Ht. apply interpolation_total_from; [done|done|].
  apply Qceiling_bound; [nra | apply Qabs_nonneg].
Qed.

(** C8: the run ends by setting [this.speed] to the target exactly
    (line 206): the last written value is [end]. *)
Theorem interpolation_snaps (fuel : nat) (start end' damping threshold : Q) (ws : list Q) :
  interpolation fuel start end' damping threshold = Some ws -> last ws = Some end'.
Proof.
  revert start ws. induction fuel as [|n IH]; intros c ws H; [done|].
  rewrite interpolation_S in H. case_bool_decide; [by simplify_eq|].
  apply fmap_Some in H as (ws' & E & ->).
  specialize (IH _ _ E). destruct ws'; [done|]. exact IH.
Qed.

(** [w] lies between [a] and [b], in either order. *)
Definition between (a b w : Q) : Prop := (a <= w <= b) \/ (b <= w <= a).

Lemma lerp_between (c e d : Q) : 0 <= d <= 1 -> between c e (lerp c e d).
Proof.
  intros Hd. unfold between, lerp.
  destruct (Qlt_le_dec c e); [left | right]; split; nra.
Qed.

Lemma between_trans (a b v w : Q) : between a b v -> between v b w -> between a b w.
Proof. unfold between. lra. Qed.

Lemma between_refl_r (a b : Q) : between a b b.
Proof. unfold between. destruct (Qlt_le_dec a b); [left|right]; lra. Qed.

#[export] Hint Resolve lerp_between between_refl_r : spin.

(** C10: every value the run writes to [this.speed] lies between the
    start and the target. *)
Theorem interpolation_between (fuel : nat) (start end' damping threshold : Q) (ws : list Q) :
  0 <= damping <= 1 ->
  interpolation fuel start end' damping threshold = Some ws -> Forall (between start end') ws.
Proof.
  intros Hd. revert start ws. induction fuel as [|n IH]; intros c ws H; [done|].
  rewrite interpolation_S in H. case_bool_decide; [simplify_eq; constructor; [apply between_refl_r | constructor]|].
  apply fmap_Some in H as (ws' & E & ->).
  constructor; [eauto with spin|].
  eapply Forall_impl; [exact (IH _ _ E)|]. intros w Hw.
  apply (between_trans c end' (lerp c end' damping) w); eauto with spin.
Qed.

(** C9: towards a larger target, the values written to [this.speed]
    increase strictly from the start, the last one being the target. *)
Theorem interpolation_increasing (fuel : nat) (start end' damping threshold : Q) (ws : list Q) :
  0 < damping <= 1 -> 0 < threshold -> start < end' ->
  interpolation fuel start end' damping threshold = Some ws -> Sorted Qlt (start :: ws).
Proof.
  intros Hd Ht. revert start ws. induction fuel as [|n IH]; intros c ws Hc H; [done|].
  rewrite interpolation_S in H. case_bool_decide as Hlt.
  - simplify_eq. repeat constructor. exact Hc.
  - apply fmap_Some in H as (ws' & E & ->).
    assert (lerp c end' damping < end').
    { destruct (lerp_between c end' damping ltac:(lra)) as [[_ Hb]|[Hb1 Hb2]]; [|lra].
      destruct (Qle_lt_or_eq _ _ Hb) as [|Heq]; [done|].
      exfalso. apply Hlt. rewrite Heq. unfold Qminus. rewrite Qplus_opp_r. exact Ht. }
    constructor; [exact (IH _ _ H E)|]. constructor. unfold lerp. nra.
Qed.

(** ** Witnesses *)

Lemma interpolation_terminates_witness :
  is_Some (interpolation (interp_bound 0 10 (1 # 10) (1 # 100)) 0 10 (1 # 10) (1 # 100)).
Proof. apply interpolation_terminates; decide_by_eval. Defined.

Lemma interpolation_snaps_witness :
  exists ws, interpolation 3 0 10 (1 # 2) 3 = Some ws /\ last ws = Some 10.
Proof.
  eexists; split; [reflexivity|].
  apply (interpolation_snaps 3 0 10 (1 # 2) 3). reflexivity.
Defined.

Lemma interpolation_between_witness :
  exists ws, interpolation 3 0 10 (1 # 2) 3 = Some ws /\ Forall (between 0 10) ws.
Proof.
  eexists; split; [reflexivity|].
  apply (interpolation_between 3 0 10 (1 # 2) 3); [decide_by_eval | reflexivity].
Defined.

Lemma interpolation_increasing_witness :
  exists ws, interpolation 3 0 10 (1 # 2) 3 = Some ws /\ Sorted Qlt (0 :: ws).
Proof.
  eexists; split; [reflexivity|].
  apply (interpolation_increasing 3 0 10 (1 # 2) 3); [decide_by_eval.. | reflexivity].
Defined.
