(* ===== verification/EventLoop.v ===== *)
(** The component in the browser's event loop: [created] and
    [beforeDestroy] (lines 27-37 of [src/spin-tester.js]),
    [trackingState] (40-42), [handleMouseMove] (44-72),
    [interpolateValues] (172-210) and [updateSpeed] (213-230), with the
    interval timer, the 5 ms interpolation timer and the 50 ms decay
    timer as explicit state of a world.

    JavaScript runs one macrotask (a timer callback or an event handler)
    to completion, then every microtask it queued (the continuations
    after [await]) before the next macrotask. A handler is modelled as a
    function from worlds to a world and a list of microtasks, and
    [drain] runs the microtasks. At most one interpolation chain exists
    at a time (the lock), so a macrotask queues at most one chain of
    microtasks and their order is the order of the list. *)

From S2P Require Import Prelude Geometry Data Tracker Smoother.

Local Open Scope spin_scope.

(** ** State *)

(** Who awaits [interpolateValues]: [updateSpeed] re-arms the decay timer
    after it (lines 225-229); the decay callback does nothing after it
    (line 228). *)
Inductive Caller := ByUpdateSpeed | ByDecay.

(** A pending [setTimeout(() => interpolate(interpolatedValue), 5)]
    (line 198) with the closure's captured [end], [damping] and
    [threshold], and the caller awaiting the promise. *)
Record InterpTask := mkTask {
  it_due : Z; it_current : Q; it_end : Q; it_damping : Q; it_threshold : Q; it_caller : Caller
}.

(** The microtasks: the rest of [interpolateValues] after its promise
    resolves ([this.speed = end], then [this.lock = false] in
    [finally]), followed by the caller's continuation; or the caller's
    continuation alone, when [interpolateValues] returned at once because
    of the lock. *)
Inductive Micro := MFinish (end' : Q) (c : Caller) | MResume (c : Caller).

(** The world: the clock (ms), the component's data, whether the
    [mousemove] listener is registered, the next due time of the
    interval [trackTimer], the due time of the pending [speedTimer]
    callback, and the pending interpolation timer. *)
Record World := mkWorld {
  now : Z;
  data : Data;
  listening : bool;
  trackTimer : option Z;
  speedTimer : option Z;
  pending : option InterpTask
}.

Definition set_now (t : Z) (w : World) : World :=
  mkWorld t (data w) (listening w) (trackTimer w) (speedTimer w) (pending w).
Definition map_data (f : Data -> Data) (w : World) : World :=
  mkWorld (now w) (f (data w)) (listening w) (trackTimer w) (speedTimer w) (pending w).
Definition set_listening (b : bool) (w : World) : World :=
  mkWorld (now w) (data w) b (trackTimer w) (speedTimer w) (pending w).
Definition set_trackTimer (t : option Z) (w : World) : World :=
  mkWorld (now w) (data w) (listening w) t (speedTimer w) (pending w).
Definition set_speedTimer (t : option Z) (w : World) : World :=
  mkWorld (now w) (data w) (listening w) (trackTimer w) t (pending w).
Definition set_pending (p : option InterpTask) (w : World) : World :=
  mkWorld (now w) (data w) (listening w) (trackTimer w) (speedTimer w) p.

(** [created ()] at time [t0]: the data of [data()], the interval armed
    every [this.timeout] ms, the listener registered. *)
Definition created (t0 : Z) : World :=
  mkWorld t0 data_init true (Some (t0 + timeout data_init)%Z) None None.

(** ** Interpolation *)

(** One call of [interpolate (current)] inside a macrotask: on
    [Continue], write [this.speed] and arm the next 5 ms timer; on
    [Resolve], queue the rest of [interpolateValues]. *)
Definition run_interpolate (current end' damping threshold : Q) (c : Caller) (w : World)
  : World * list Micro :=
  match interpolate current end' damping threshold with
  | Resolve _ => (w, [MFinish end' c])
  | Continue v =>
      (w |> map_data (set_speed v)
         |> set_pending (Some (mkTask (now w + 5) v end' damping threshold c)), [])
  end.

(** [interpolateValues (start, end, damping, threshold)]: a no-op while
    the lock is held (the caller resumes at once); otherwise take the
    lock and run the first call of [interpolate] synchronously (the
    promise executor runs at construction). *)
Definition interpolateValues (start end' damping threshold : Q) (c : Caller) (w : World)
  : World * list Micro :=
  if lock (data w) then (w, [MResume c])
  else run_interpolate start end' damping threshold c (map_data (set_lock true) w).

(** The caller's continuation: [updateSpeed] clears the decay timer and
    arms a new one 50 ms later; the decay callback has nothing left. *)
Definition resume (c : Caller) (w : World) : World :=
  match c with
  | ByUpdateSpeed => set_speedTimer (Some (now w + 50)%Z) w
  | ByDecay => w
  end.

Definition run_micro (m : Micro) (w : World) : World :=
  match m with
  | MFinish e c => w |> map_data (set_speed e) |> map_data (set_lock false) |> resume c
  | MResume c => resume c w
  end.

Definition drain (ms : list Micro) (w : World) : World :=
  fold_left (fun w m => run_micro m w) ms w.

(** ** Handlers *)

Section Handlers.
Context `{MathSqrt}.

(** [updateSpeed (prePos, pos)] up to its [await]: the target speed is
    the distance over the nominal sampling gap [this.timeout]. *)
Definition updateSpeed (prePos pos : Pos) (w : World) : World * list Micro :=
  let distance := calcDistance prePos pos in
  let targetSpeed := if 0 <q? distance then (distance / inject_Z (timeout (data w)))%Q else 0%Q in
  interpolateValues (speed (data w)) targetSpeed (dampingCoefficient (data w)) (1 # 100) ByUpdateSpeed w.

(** [handleMouseMove (e)], then the microtasks it queued. *)
Definition handleMouseMove (b : Body) (e : MouseEvent) (w : World) : World :=
  let d := data w in
  if isTracking d then
    let prePos := last (mousePosArr d) in
    let p := getMousePosition b e in
    let d := d |> set_pos (Some p) |> set_mousePosArr (mousePosArr d ++ [p]) in
    let d := match determineSection prePos p with
             | Some section => d |> set_direction (getDirection section) |> updateSection section
             | None => d
             end in
    let '(w', ms) := match prePos, pos d with
                     | Some pp, Some p' => updateSpeed pp p' (map_data (fun _ => d) w)
                     | _, _ => (map_data (fun _ => d) w, [])
                     end in
    drain ms (map_data (set_isTracking false) w')
  else w.

End Handlers.

(** [trackingState ()], run by the interval at its due time, which is
    then re-armed [this.timeout] ms later. *)
Definition fire_track (w : World) : World :=
  match trackTimer w with
  | Some t => w |> set_now t |> set_trackTimer (Some (t + timeout (data w))%Z)
                |> map_data (set_isTracking true)
  | None => w
  end.

(** The 5 ms interpolation timer: the next call of [interpolate]. *)
Definition fire_interp (w : World) : World :=
  match pending w with
  | Some task =>
      let w := w |> set_now (it_due task) |> set_pending None in
      let '(w', ms) := run_interpolate (it_current task) (it_end task) (it_damping task)
                         (it_threshold task) (it_caller task) w in
      drain ms w'
  | None => w
  end.

(** The decay timer: [interpolateValues (this.speed, 0, damping)]. *)
Definition fire_decay (w : World) : World :=
  match speedTimer w with
  | Some t =>
      let w := w |> set_now t |> set_speedTimer None in
      let '(w', ms) := interpolateValues (speed (data w)) 0 (dampingCoefficient (data w)) (1 # 100) ByDecay w in
      drain ms w'
  | None => w
  end.

(** [beforeDestroy ()]: clear the interval, remove the listener. *)
Definition beforeDestroy (w : World) : World :=
  w |> set_trackTimer None |> set_listening false.

(** ** Timers and the step relation *)

Inductive TimerKind := KTrack | KInterp | KDecay.

(** When a timer is due, if it is armed. *)
Definition due (k : TimerKind) (w : World) : option Z :=
  match k with
  | KTrack => trackTimer w
  | KInterp => it_due <$> pending w
  | KDecay => speedTimer w
  end.

Definition fire (k : TimerKind) (w : World) : World :=
  match k with
  | KTrack => fire_track w
  | KInterp => fire_interp w
  | KDecay => fire_decay w
  end.

Section Semantics.
Context `{MathSqrt}.

(** A mouse event reaches the handler only while the listener is
    registered. *)
Definition deliver (t : Z) (b : Body) (e : MouseEvent) (w : World) : World :=
  if listening w then handleMouseMove b e (set_now t w) else set_now t w.

(** One macrotask: a mouse event at a time not before the clock, an armed
    timer at its due time, or the component's destruction. The relation
    allows every order of the timers (the browser fires them by due
    time, [run_timers] below). *)
Inductive step : relation World :=
  | step_mouse (t : Z) (b : Body) (e : MouseEvent) (w : World) :
      (now w <= t)%Z -> step w (deliver t b e w)
  | step_timer (k : TimerKind) (t : Z) (w : World) :
      due k w = Some t -> (now w <= t)%Z -> step w (fire k w)
  | step_destroy (w : World) : step w (beforeDestroy w).

(** The worlds the component can reach after [created]. *)
Definition reachable (w : World) : Prop := exists t0, rtc step (created t0) w.

(** The macrotasks other than the interval's [trackingState]: what can
    happen between two ticks. *)
Inductive step_no_tick : relation World :=
  | snt_mouse (t : Z) (b : Body) (e : MouseEvent) (w : World) :
      (now w <= t)%Z -> step_no_tick w (deliver t b e w)
  | snt_timer (k : TimerKind) (t : Z) (w : World) :
      k <> KTrack -> due k w = Some t -> (now w <= t)%Z -> step_no_tick w (fire k w)
  | snt_destroy (w : World) : step_no_tick w (beforeDestroy w).

End Semantics.

(** The armed timer due first; on equal due times the interval, then
    the interpolation timer, then the decay timer. *)
Definition earliest (w : World) : option (Z * TimerKind) :=
  fold_left (fun acc k =>
               match due k w, acc with
               | Some t, Some (t', _) => if bool_decide (t < t')%Z then Some (t, k) else acc
               | Some t, None => Some (t, k)
               | None, _ => acc
               end) [KTrack; KInterp; KDecay] None.

(** Fire the timers due up to [until], in due order, at most [fuel] of
    them. *)
Fixpoint run_timers (fuel : nat) (until : Z) (w : World) : World :=
  match fuel with
  | O => w
  | S fuel' =>
      match earliest w with
      | Some (t, k) => if bool_decide (t <= until)%Z then run_timers fuel' until (fire k w) else w
      | None => w
      end
  end.

(** A session: mouse events at increasing times, the timers due before
    each one fired first. *)
Fixpoint run `{MathSqrt} (fuel : nat) (b : Body) (inputs : list (Z * MouseEvent)) (w : World) : World :=
  match inputs with
  | [] => w
  | (t, e) :: rest => run fuel b rest (deliver t b e (run_timers fuel t w))
  end.

(** ** Invariants *)

(** The data fields the handlers rely on: the constants of [data()], a
    non-negative speed, and a tracker array an attempt denotes. *)
Definition data_ok (d : Data) : Prop :=
  dampingCoefficient d = (1 # 10)%Q /\ timeout d = 20%Z /\ (0 <= speed d)%Q /\
  exists p, arrSection d = gamma p.

(** A pending interpolation step carries the constants of its call and
    non-negative speeds. *)
Definition task_ok (task : InterpTask) : Prop :=
  it_damping task = (1 # 10)%Q /\ it_threshold task = (1 # 100)%Q /\
  (0 <= it_current task)%Q /\ (0 <= it_end task)%Q.

(** The lock is held exactly while an interpolation timer is pending. *)
Definition world_ok (w : World) : Prop :=
  data_ok (data w) /\ (lock (data w) = true <-> is_Some (pending w)) /\
  (forall task, pending w = Some task -> task_ok task).

Lemma fill0_gamma (p : Attempt) : fill0 (gamma p) = gamma Idle.
Proof. quad_cases; reflexivity. Qed.

(** What [updateSection] keeps of the data. *)
Lemma updateSection_keeps (s : nat) (d : Data) :
  lock (updateSection s d) = lock d /\ dampingCoefficient (updateSection s d) = dampingCoefficient d /\
  timeout (updateSection s d) = timeout d /\ isTracking (updateSection s d) = isTracking d /\
  (speed (updateSection s d) = speed d \/ speed (updateSection s d) = 0%Q).
Proof.
  unfold updateSection. destruct (bool_decide (sum_list _ = 4)), (_ && _ && _); simpl; tauto.
Qed.

Lemma updateSection_data_ok (q : quad) (d : Data) :
  data_ok d -> data_ok (updateSection (qnum q) d).
Proof.
  intros (Hd & Ht & Hs & p & Hp). unfold data_ok.
  destruct (updateSection_keeps (qnum q) d) as (_ & -> & -> & _ & [-> | ->]);
    (split; [done|]; split; [done|]; split; [done || lra|]);
    exists (fst (astep p q)); apply (updateSection_gamma _ _ _ Hp).
Qed.

(** The microtasks commute with the handler's last statement
    [this.isTracking = false]: running them after it, as the event loop
    does, or before it gives the same world. *)
Lemma drain_set_isTracking (ms : list Micro) (b : bool) (w : World) :
  drain ms (map_data (set_isTracking b) w) = map_data (set_isTracking b) (drain ms w).
Proof.
  revert w. induction ms as [|[e []|[]] ms IH]; intros w; simpl; [done|..]; rewrite <- IH; reflexivity.
Qed.

Lemma drain_resume_ok (c : Caller) (w : World) : world_ok w -> world_ok (drain [MResume c] w).
Proof. destruct c; simpl; done. Qed.

(** A call of [interpolate] from a world holding the lock with no timer
    pending leaves a consistent world once its microtasks have run. *)
Lemma run_interpolate_ok (cur e : Q) (c : Caller) (w : World) :
  data_ok (data w) -> lock (data w) = true -> pending w = None ->
  (0 <= cur)%Q -> (0 <= e)%Q ->
  world_ok (let '(w', ms) := run_interpolate cur e (1 # 10) (1 # 100) c w in drain ms w').
Proof.
  intros (Hd & Ht & Hs & Hp) Hl Hn Hc He. unfold run_interpolate.
  destruct (interpolate cur e (1 # 10) (1 # 100)) as [v|v] eqn:Ei.
  - destruct c; (split; [repeat split; done|]); simpl; rewrite Hn; split; try done; by intros [].
  - assert (0 <= v)%Q.
    { unfold interpolate in Ei. destruct (bool_decide _); simplify_eq.
      destruct (lerp_between cur e (1 # 10) ltac:(decide_by_eval)) as [[]|[]]; lra. }
    split; [repeat split; done|]. simpl. split; [split; [by eexists|done]|].
    intros task [= <-]. repeat split; simpl; done.
Qed.

Lemma world_ok_map_data (f : Data -> Data) (w : World) :
  world_ok w -> data_ok (f (data w)) -> lock (f (data w)) = lock (data w) -> world_ok (map_data f w).
Proof. intros (_ & Hl & Ht) Hd Hf. split; [done|]. simpl. rewrite Hf. done. Qed.

(** Moving the clock or the timers keeps the invariant: it reads only
    the data and the pending interpolation. *)
Lemma world_ok_timers (w : World) (t : Z) (o : option Z) :
  world_ok w -> world_ok (set_now t w) /\ world_ok (set_speedTimer o w) /\
                world_ok (set_trackTimer o w) /\ world_ok (set_listening false w).
Proof. intros Hw. split; [exact Hw|]. split; [exact Hw|]. split; exact Hw. Qed.

(** C6: the reentrancy guard. While the lock is held, [interpolateValues]
    changes nothing (neither the speed nor the pending interpolation) and
    only lets its caller resume. *)
Theorem interpolateValues_locked (start end' damping threshold : Q) (c : Caller) (w : World) :
  lock (data w) = true ->
  interpolateValues start end' damping threshold c w = (w, [MResume c]).
Proof. intros Hl. unfold interpolateValues. by rewrite Hl. Qed.

Lemma interpolateValues_ok (start e : Q) (c : Caller) (w : World) :
  world_ok w -> (0 <= start)%Q -> (0 <= e)%Q ->
  world_ok (let '(w', ms) := interpolateValues start e (1 # 10) (1 # 100) c w in drain ms w').
Proof.
  intros Hw Hs He. destruct (lock (data w)) eqn:Hl.
  - unfold interpolateValues. rewrite Hl. by apply drain_resume_ok.
  - unfold interpolateValues. rewrite Hl. destruct Hw as (Hd & Hlp & _).
    apply run_interpolate_ok; try done.
    simpl. destruct (pending w) eqn:Hp; [|done].
    assert (lock (data w) = true) by (apply Hlp; by eexists). congruence.
Qed.

Lemma section_qnum (s : nat) : 1 <= s <= 4 -> exists q, s = qnum q.
Proof.
  intros Hs. destruct s as [|[|[|[|[|s]]]]]; try lia; [exists Q1 | exists Q2 | exists Q3 | exists Q4]; done.
Qed.

Section Preservation.
Context `{MathSqrt}.

Lemma handleMouseMove_ok (b : Body) (e : MouseEvent) (w : World) :
  world_ok w -> world_ok (handleMouseMove b e w).
Proof.
  intros Hw. unfold handleMouseMove. destruct (isTracking (data w)); [|done].
  set (p := getMousePosition b e).
  set (d1 := data w |> set_pos (Some p) |> set_mousePosArr (mousePosArr (data w) ++ [p])).
  assert (data_ok d1 /\ lock d1 = lock (data w)) as [Hd1 Hl1] by (split; [apply Hw | done]).
  set (d2 := match determineSection (last (mousePosArr (data w))) p with
             | Some section => d1 |> set_direction (getDirection section) |> updateSection section
             | None => d1 end).
  assert (data_ok d2 /\ lock d2 = lock (data w)) as [Hd2 Hl2].
  { subst d2. destruct (determineSection _ p) as [s|] eqn:Es; [|done].
    destruct (section_qnum s (determineSection_Some_range _ _ _ Es)) as [q ->].
    split; [by apply updateSection_data_ok|].
    by rewrite (proj1 (updateSection_keeps _ _)). }
  assert (world_ok (map_data (fun _ => d2) w)) as Hw2 by (by apply world_ok_map_data).
  destruct (last (mousePosArr (data w))) as [pp|], (pos d2) as [p'|];
    [|simpl; apply world_ok_map_data; done..].
  unfold updateSpeed. simpl.
  destruct Hd2 as (Hdc & Hto & Hsp & _). rewrite Hdc, Hto.
  assert (0 <= (if 0 <q? calcDistance pp p' then calcDistance pp p' / inject_Z 20 else 0))%Q as Htg.
  { case_bool_decide; [|lra]. apply Qle_shift_div_l; [reflexivity | lra]. }
  pose proof (interpolateValues_ok (speed d2) _ ByUpdateSpeed _ Hw2 Hsp Htg) as Hok.
  destruct (interpolateValues _ _ _ _ _ _) as [w' ms].
  rewrite drain_set_isTracking. apply world_ok_map_data; [apply Hok | apply Hok | done].
Qed.

Lemma fire_ok (k : TimerKind) (w : World) : world_ok w -> world_ok (fire k w).
Proof.
  intros Hw. destruct k; simpl.
  - unfold fire_track. destruct (trackTimer w); [|done].
    apply world_ok_map_data; [exact Hw | apply Hw | done].
  - unfold fire_interp. destruct (pending w) as [task|] eqn:Hp; [|done].
    destruct Hw as (Hd & Hl & Ht). destruct (Ht task Hp) as (Hdm & Hth & Hc & He).
    rewrite Hdm, Hth. apply run_interpolate_ok; try done. apply Hl. by eexists.
  - unfold fire_decay. destruct (speedTimer w); [|done].
    destruct Hw as (Hd & Hl & Ht). simpl. rewrite (proj1 Hd).
    apply interpolateValues_ok; [done | apply Hd | lra].
Qed.

Lemma step_ok (w w' : World) : step w w' -> world_ok w -> world_ok w'.
Proof.
  intros Hs Hw. destruct Hs as [t b e w Ht|k t w Hk Ht|w].
  - unfold deliver. destruct (listening w); [apply handleMouseMove_ok|]; exact Hw.
  - by apply fire_ok.
  - exact Hw.
Qed.

Lemma created_ok (t0 : Z) : world_ok (created t0).
Proof.
  split; [|split; [split; [discriminate | intros [? ?]; discriminate] | by intros]].
  split; [done|]. split; [done|]. split; [simpl; lra | by exists Idle].
Qed.

(** Every reachable world satisfies the invariant. *)
Lemma reachable_ok (w : World) : reachable w -> world_ok w.
Proof. intros [t0 Hr]. apply (rtc_preserved _ _ _ _ step_ok (created_ok t0) Hr). Qed.

End Preservation.

(** ** What the interpolation machinery may change *)

(** Two data records that differ at most in [speed] and [lock]. *)
Definition speed_lock_frame (d d' : Data) : Prop :=
  pos d' = pos d /\ arrSection d' = arrSection d /\ mousePosArr d' = mousePosArr d /\
  cumulate d' = cumulate d /\ direction d' = direction d /\ isTracking d' = isTracking d.

Lemma frame_refl (d : Data) : speed_lock_frame d d.
Proof. repeat split. Qed.

Lemma frame_trans (d1 d2 d3 : Data) :
  speed_lock_frame d1 d2 -> speed_lock_frame d2 d3 -> speed_lock_frame d1 d3.
Proof. unfold speed_lock_frame. intuition congruence. Qed.

#[export] Hint Resolve frame_refl : spin.

Lemma drain_frame (ms : list Micro) (w : World) : speed_lock_frame (data w) (data (drain ms w)).
Proof.
  revert w. induction ms as [|[e []|[]] ms IH]; intros w; simpl; [apply frame_refl|..];
    (eapply frame_trans; [|apply IH]); repeat split.
Qed.

Lemma run_interpolate_frame (cur e d t : Q) (c : Caller) (w : World) :
  speed_lock_frame (data w) (data (let '(w', ms) := run_interpolate cur e d t c w in drain ms w')).
Proof.
  unfold run_interpolate. destruct (interpolate _ _ _ _).
  - apply (drain_frame [MFinish e c]).
  - repeat split.
Qed.

Lemma interpolateValues_frame (s e d t : Q) (c : Caller) (w : World) :
  speed_lock_frame (data w) (data (let '(w', ms) := interpolateValues s e d t c w in drain ms w')).
Proof.
  unfold interpolateValues. destruct (lock (data w)); [apply (drain_frame [MResume c])|].
  apply (run_interpolate_frame _ _ _ _ _ (map_data (set_lock true) w)).
Qed.

(** The timer callbacks and [beforeDestroy] change no field of the data
    but [speed], [lock] and, for the interval, [isTracking]. *)
Lemma fire_frame (k : TimerKind) (w : World) :
  k <> KTrack -> speed_lock_frame (data w) (data (fire k w)).
Proof.
  intros Hk. destruct k; simpl; [done|..].
  - unfold fire_interp. destruct (pending w); [|apply frame_refl].
    apply (run_interpolate_frame _ _ _ _ _ (set_pending None (set_now _ w))).
  - unfold fire_decay. destruct (speedTimer w); [|apply frame_refl].
    apply (interpolateValues_frame _ _ _ _ _ (set_speedTimer None (set_now _ w))).
Qed.

Lemma updateSection_cumulate_mono (s : nat) (d : Data) : cumulate d <= cumulate (updateSection s d).
Proof. unfold updateSection. destruct (bool_decide _), (_ && _ && _); simpl; lia. Qed.

Section Steps.
Context `{MathSqrt}.

(** The rate gate: after a handled event [isTracking] is [false]. *)
Lemma handleMouseMove_isTracking (b : Body) (e : MouseEvent) (w : World) :
  isTracking (data w) = true -> isTracking (data (handleMouseMove b e w)) = false.
Proof.
  intros Ht. unfold handleMouseMove. rewrite Ht.
  match goal with |- context [let '(_, _) := ?X in _] => destruct X as [w' ms] end.
  rewrite drain_set_isTracking. reflexivity.
Qed.

Lemma handleMouseMove_cumulate_mono (b : Body) (e : MouseEvent) (w : World) :
  cumulate (data w) <= cumulate (data (handleMouseMove b e w)).
Proof.
  unfold handleMouseMove. destruct (isTracking (data w)); [|done].
  set (d2 := match determineSection _ _ with Some s => _ | None => _ end).
  assert (cumulate (data w) <= cumulate d2).
  { subst d2. destruct (determineSection _ _); [|done]. etransitivity; [|apply updateSection_cumulate_mono]. done. }
  destruct (last _), (pos d2); simpl; try done.
  unfold updateSpeed. pose proof (interpolateValues_frame (speed d2)
    (if 0 <q? calcDistance p p0 then (calcDistance p p0 / inject_Z (timeout d2))%Q else 0%Q)
    (dampingCoefficient d2) (1 # 100) ByUpdateSpeed (map_data (fun _ => d2) w)) as Hf.
  destruct (interpolateValues _ _ _ _ _ _) as [w' ms].
  rewrite drain_set_isTracking. simpl. destruct Hf as (_ & _ & _ & -> & _). done.
Qed.

(** C12: the revolution counter never decreases: no step of the event
    loop lowers [cumulate]. *)
Theorem step_cumulate_mono (w w' : World) :
  step w w' -> cumulate (data w) <= cumulate (data w').
Proof.
  intros Hs. destruct Hs as [t b e w Ht|k t w Hk Ht|w].
  - unfold deliver. destruct (listening w); [apply (handleMouseMove_cumulate_mono _ _ (set_now t w))|done].
  - destruct k.
    + unfold fire, fire_track. destruct (trackTimer w); simpl; lia.
    + destruct (fire_frame KInterp w ltac:(discriminate)) as (_ & _ & _ & -> & _). done.
    + destruct (fire_frame KDecay w ltac:(discriminate)) as (_ & _ & _ & -> & _). done.
  - done.
Qed.

End Steps.

(** ** Properties of the component in the event loop *)

Section Claims.
Context `{MathSqrt}.

(** C5: in every reachable world the reentrancy lock is held exactly
    while an interpolation timer is pending: the lock is never left set
    with nothing to release it, and never clear while a chain runs. *)
Theorem reachable_lock_iff_pending (w : World) :
  reachable w -> (lock (data w) = true <-> is_Some (pending w)).
Proof. intros Hr. apply (reachable_ok w Hr). Qed.

(** C7: the speed is never negative in a reachable world, nor any value
    a pending interpolation step will write. *)
Theorem reachable_speed_nonneg (w : World) :
  reachable w ->
  (0 <= speed (data w))%Q /\
  (forall task, pending w = Some task -> (0 <= it_current task)%Q /\ (0 <= it_end task)%Q).
Proof.
  intros Hr. destruct (reachable_ok w Hr) as ((_ & _ & Hs & _) & _ & Ht).
  split; [done|]. intros task Hp. destruct (Ht task Hp) as (_ & _ & ? & ?). done.
Qed.

(** C11: the tracker array of a reachable world is one an attempt of the
    automaton denotes, hence well formed: the refinement of
    [Tracker.v] applies at every mouse event of a session. *)
Theorem reachable_tracker (w : World) :
  reachable w -> exists p, arrSection (data w) = gamma p /\ tracker_wf (arrSection (data w)).
Proof.
  intros Hr. destruct (reachable_ok w Hr) as ((_ & _ & _ & p & Hp) & _).
  exists p. split; [done|]. rewrite Hp. apply gamma_wf.
Qed.

(** C13: the rate gate. A second mouse event handled before the interval
    re-enables tracking changes nothing: at most one sample is processed
    per interval tick. *)
Theorem handleMouseMove_gate (b b' : Body) (e e' : MouseEvent) (w : World) :
  handleMouseMove b' e' (handleMouseMove b e w) = handleMouseMove b e w.
Proof.
  destruct (isTracking (data w)) eqn:Ht.
  - unfold handleMouseMove at 1. by rewrite handleMouseMove_isTracking.
  - unfold handleMouseMove. rewrite Ht. simpl. by rewrite Ht.
Qed.

End Claims.

(** ** A concrete session *)

Definition body0 : Body := mkBody 0 0 0 0.

(** A mouse event at page position [(x, y)]. *)
Definition move (x y : Z) : MouseEvent := mkMouseEvent x y x y.

(** Two mouse events, the interval tick between them: an interpolation is
    running afterwards. *)
Definition two_moves : World :=
  deliver 24 body0 (move 110 110) (fire KTrack (deliver 3 body0 (move 100 100) (created 0))).

(** The first four samples of the specification's scenario, moved into
    positive page coordinates, about 21 ms apart: (100,100), (110,110),
    (100,120), (90,110). *)
Definition four_samples : World :=
  run 1000 body0 [(3%Z, move 100 100); (24%Z, move 110 110); (45%Z, move 100 120);
                  (66%Z, move 90 110)] (created 0).

(** The world just before the fifth sample (100,100) at 87 ms. *)
Definition before_fifth : World := set_now 87 (run_timers 1000 87 four_samples).

(** The first three samples: the third arrives while the interpolation
    started by the second holds the lock, and arms the decay timer. *)
Definition three_samples : World :=
  run 1000 body0 [(3%Z, move 100 100); (24%Z, move 110 110); (45%Z, move 100 120)] (created 0).

Lemma two_moves_reachable : reachable two_moves.
Proof.
  exists 0%Z. unfold two_moves.
  eapply rtc_l; [apply (step_mouse 3 body0 (move 100 100)); simpl; lia|].
  eapply rtc_l; [apply (step_timer KTrack 20); [reflexivity | simpl; lia]|].
  eapply rtc_l; [apply (step_mouse 24 body0 (move 110 110)); simpl; lia|]. apply rtc_refl.
Qed.

(** C18: [beforeDestroy] clears the interval and the listener but not
    the pending interpolation timer: a reachable, destroyed component
    still has its [speed] written by it. *)
Theorem destroyed_component_still_updates :
  exists w, reachable w /\ listening w = false /\ trackTimer w = None /\
            step w (fire KInterp w) /\ speed (data (fire KInterp w)) <> speed (data w).
Proof.
  exists (beforeDestroy two_moves). split.
  - destruct two_moves_reachable as [t0 Hr]. exists t0.
    eapply rtc_r; [exact Hr | apply step_destroy].
  - split; [reflexivity|]. split; [reflexivity|]. split.
    + apply (step_timer KInterp 29); [reflexivity | simpl; lia].
    + vm_compute. discriminate.
Qed.

(** The end of [handleMouseMove] after the data update [d2]: the
    possible [updateSpeed] and the microtasks. It never changes
    [cumulate]; after a reset ([pos] cleared) it only clears
    [isTracking]. *)
Lemma finish_sample `{MathSqrt} (d2 : Data) (prePos : option Pos) (w : World) :
  let R := (let '(w', ms) := match prePos, pos d2 with
                             | Some pp, Some p' => updateSpeed pp p' (map_data (fun _ => d2) w)
                             | _, _ => (map_data (fun _ => d2) w, [])
                             end in
            drain ms (map_data (set_isTracking false) w')) in
  cumulate (data R) = cumulate d2 /\
  (pos d2 = None -> data R = set_isTracking false d2 /\ pending R = pending w /\ speedTimer R = speedTimer w).
Proof.
  cbv zeta. destruct prePos as [pp|], (pos d2) as [p'|] eqn:Hp; simpl; try (split; [done | by intros]).
  split; [|done]. unfold updateSpeed.
  pose proof (interpolateValues_frame (speed d2)
    (if 0 <q? calcDistance pp p' then (calcDistance pp p' / inject_Z (timeout d2))%Q else 0%Q)
    (dampingCoefficient d2) (1 # 100) ByUpdateSpeed (map_data (fun _ => d2) w)) as Hf.
  destruct (interpolateValues _ _ _ _ _ _) as [w' ms].
  rewrite drain_set_isTracking. simpl. by destruct Hf as (_ & _ & _ & -> & _).
Qed.

(** A revolution resets the data: [pos] cleared, [speed] 0, the lock
    untouched. *)
Lemma updateSection_revolution_clears (s : nat) (d : Data) :
  cumulate d < cumulate (updateSection s d) ->
  pos (updateSection s d) = None /\ speed (updateSection s d) = 0%Q /\ lock (updateSection s d) = lock d.
Proof.
  unfold updateSection. destruct (bool_decide (sum_list _ = 4)), (_ && _ && _); simpl; intros Hc;
    try lia; repeat split.
Qed.

Section Revision.
Context `{MathSqrt}.

(** C19: a sample that completes a revolution sets the displayed speed to
    0 through [clearState] but leaves a running interpolation, its lock
    and the decay timer as they were: the interpolation later overwrites
    the 0, so the speed drops to 0 in the middle of a gesture. *)
Theorem revolution_zeroes_speed (b : Body) (e : MouseEvent) (w : World) :
  cumulate (data w) < cumulate (data (handleMouseMove b e w)) ->
  speed (data (handleMouseMove b e w)) = 0%Q /\ pending (handleMouseMove b e w) = pending w /\
  lock (data (handleMouseMove b e w)) = lock (data w) /\
  speedTimer (handleMouseMove b e w) = speedTimer w.
Proof.
  unfold handleMouseMove. destruct (isTracking (data w)); [|lia]. cbv zeta.
  set (p := getMousePosition b e).
  set (d1 := set_mousePosArr _ (set_pos _ _)).
  set (pp := last (mousePosArr (data w))).
  destruct (determineSection pp p) as [s|].
  - set (d2 := updateSection s (set_direction (getDirection s) d1)).
    destruct (finish_sample d2 pp w) as [Hc Hr]. cbv zeta in Hc, Hr.
    rewrite Hc. intros Hlt.
    destruct (updateSection_revolution_clears s (set_direction (getDirection s) d1) Hlt) as (Hp & Hs & Hl).
    destruct (Hr Hp) as (-> & -> & ->). split; [exact Hs|]. split; [done|]. split; [exact Hl|done].
  - destruct (finish_sample d1 pp w) as [Hc _]. cbv zeta in Hc.
    rewrite Hc. simpl. lia.
Qed.

(** C20: a decay timer that fires while an interpolation holds the lock
    is lost: it only disarms itself, leaving the data and the running
    interpolation as they were. The decay then waits for the next
    [updateSpeed] to complete. *)
Theorem fire_decay_while_interpolating (w : World) (t : Z) :
  lock (data w) = true -> speedTimer w = Some t ->
  fire_decay w = set_speedTimer None (set_now t w).
Proof.
  intros Hl Ht. unfold fire_decay. rewrite Ht. unfold interpolateValues. simpl. by rewrite Hl.
Qed.

(** C21: the rate gate across every interleaving. Once a sample has been
    handled ([isTracking] is [false]), no mouse event, interpolation or
    decay timer, nor the component's destruction records a sample or
    changes [cumulate] until the interval ticks again. *)
Theorem no_sample_until_tick (w w' : World) :
  isTracking (data w) = false -> rtc step_no_tick w w' ->
  isTracking (data w') = false /\ mousePosArr (data w') = mousePosArr (data w) /\
  cumulate (data w') = cumulate (data w).
Proof.
  intros Ht Hr.
  apply (rtc_preserved step_no_tick
    (fun x => isTracking (data x) = false /\ mousePosArr (data x) = mousePosArr (data w) /\
              cumulate (data x) = cumulate (data w)) w w'); [|done|done].
  intros x y Hs (Hx1 & Hx2 & Hx3). destruct Hs as [t b e x Hle|k t x Hk Hd Hle|x].
  - unfold deliver, handleMouseMove. simpl. rewrite Hx1. by destruct (listening x).
  - destruct (fire_frame k x Hk) as (_ & _ & -> & -> & _ & ->). done.
  - done.
Qed.

End Revision.

(** ** Witnesses *)

Lemma interpolateValues_locked_witness :
  interpolateValues 0 0 (1 # 10) (1 # 100) ByDecay two_moves = (two_moves, [MResume ByDecay]).
Proof. apply interpolateValues_locked. vm_compute. reflexivity. Defined.

Lemma reachable_lock_iff_pending_witness :
  lock (data two_moves) = true <-> is_Some (pending two_moves).
Proof. apply reachable_lock_iff_pending. exact two_moves_reachable. Defined.

Lemma reachable_speed_nonneg_witness :
  (0 <= speed (data two_moves))%Q /\
  (forall task, pending two_moves = Some task -> (0 <= it_current task)%Q /\ (0 <= it_end task)%Q).
Proof. apply reachable_speed_nonneg. exact two_moves_reachable. Defined.

Lemma reachable_tracker_witness :
  exists p, arrSection (data two_moves) = gamma p /\ tracker_wf (arrSection (data two_moves)).
Proof. apply reachable_tracker. exact two_moves_reachable. Defined.

Lemma step_cumulate_mono_witness :
  cumulate (data (created 0)) <= cumulate (data (deliver 3 body0 (move 100 100) (created 0))).
Proof. apply step_cumulate_mono. apply step_mouse. simpl. lia. Defined.

Lemma revolution_zeroes_speed_witness :
  speed (data (handleMouseMove body0 (move 100 100) before_fifth)) = 0%Q /\
  pending (handleMouseMove body0 (move 100 100) before_fifth) = pending before_fifth /\
  lock (data (handleMouseMove body0 (move 100 100) before_fifth)) = lock (data before_fifth) /\
  speedTimer (handleMouseMove body0 (move 100 100) before_fifth) = speedTimer before_fifth.
Proof. apply revolution_zeroes_speed. vm_compute. lia. Defined.

Lemma fire_decay_while_interpolating_witness :
  fire_decay three_samples = set_speedTimer None (set_now 95 three_samples).
Proof. apply fire_decay_while_interpolating; vm_compute; reflexivity. Defined.

Lemma no_sample_until_tick_witness :
  let w := deliver 3 body0 (move 100 100) (created 0) in
  let w' := deliver 10 body0 (move 120 130) w in
  isTracking (data w') = false /\ mousePosArr (data w') = mousePosArr (data w) /\
  cumulate (data w') = cumulate (data w).
Proof.
  apply no_sample_until_tick; [vm_compute; reflexivity|].
  eapply rtc_l; [apply (snt_mouse 10 body0 (move 120 130)); simpl; lia | apply rtc_refl].
Defined.
